(** * permitflow-rebuild: the permit endpoints of [backend/app/api/permits.py]

    A shallow embedding of the two route handlers [create_permit] and
    [list_permits], of the pydantic schemas [PermitCreate] and [Permit]
    they use, and of the module-level list [permits] that serves as the
    datastore.  The handlers are effectful: they read the wall clock
    ([datetime.now()]), draw randomness ([uuid4()]) and mutate the shared
    list.  All three effects are threaded through an explicit [World]. *)

From Stdlib Require Import ZArith Lia Ascii String.
From stdpp Require Import base option list gmap strings.

Local Open Scope Z_scope.

(** ** Schemas ([backend/app/schemas/permit.py]) *)

(** A naive [datetime] is a point on the local time line with microsecond
    resolution; it is modelled by its number of microseconds.  Equality and
    order of [datetime] values are equality and order of these numbers. *)
Definition datetime : Type := Z.

Module PermitCreate.
Record t : Type := mk {
  county_id : Z;
  type : string
}.
End PermitCreate.

(** [Permit] inherits the two fields of [PermitCreate] and adds seven. *)
Module Permit.
Record t : Type := mk {
  county_id : Z;
  type : string;
  id : string;
  user_id : string;
  status : string;
  current_step : string;
  submitted_at : datetime;
  updated_at : datetime;
  offline_submission : bool
}.
End Permit.

(** ** [uuid.UUID], [uuid.uuid4] and [str(UUID)] (Python standard library) *)

Module UUID.

(** A [UUID] object is determined by its 128-bit integer [int]. *)
Definition t : Type := Z.

(** [UUID(bytes=b, version=4)], on the big-endian integer read from [b]:
<<
    int &= ~(0xc000 << 48)
    int |= 0x8000 << 48
    int &= ~(0xf000 << 64)
    int |= version << 76
>> *)
Definition with_version4 (int : Z) : t :=
  let int := Z.land int (Z.lnot (Z.shiftl 0xc000 48)) in
  let int := Z.lor int (Z.shiftl 0x8000 48) in
  let int := Z.land int (Z.lnot (Z.shiftl 0xf000 64)) in
  Z.lor int (Z.shiftl 4 76).

Definition hexdigits : list ascii :=
  list_ascii_of_string "0123456789abcdef".

Definition hexchar (d : Z) : ascii :=
  nth (Z.to_nat d) hexdigits "0"%char.

(** The [k] least significant hexadecimal digits of [n], most significant
    first. *)
Fixpoint hex_fixed (k : nat) (n : Z) : list ascii :=
  match k with
  | O => []
  | S k' => hex_fixed k' (n / 16) ++ [hexchar (n mod 16)]
  end.

(** Number of hexadecimal digits of a non-negative integer ([1] for [0]). *)
Definition hex_len (n : Z) : nat := Z.to_nat (Z.log2 n / 4 + 1).

(** ['%032x' % n] for [0 <= n]: the digits of [n], padded with zeros on
    the left to a width of at least 32. *)
Definition format_032x (n : Z) : list ascii :=
  hex_fixed (Nat.max 32 (hex_len n)) n.

(** The Python slice [l[a:b]] for [0 <= a <= b]. *)
Definition slice {A : Type} (a b : nat) (l : list A) : list A :=
  take (b - a) (drop a l).

(** [UUID.__str__]:
<<
    hex = '%032x' % self.int
    return '%s-%s-%s-%s-%s' % (hex[:8], hex[8:12], hex[12:16], hex[16:20], hex[20:])
>> *)
Definition dashed (hex : list ascii) : list ascii :=
  slice 0 8 hex ++ "-"%char :: slice 8 12 hex ++ "-"%char ::
  slice 12 16 hex ++ "-"%char :: slice 16 20 hex ++ "-"%char :: drop 20 hex.

Definition str (u : t) : string :=
  string_of_list_ascii (dashed (format_032x u)).

End UUID.

(** ** The world the handlers run in *)

(** [permits] is the module-level list of [api/permits.py]; the two counters
    record how many times the clock has been read and how many times the
    random source has been drawn from, so that every read and every draw is
    a distinct event of the environment. *)
Record World : Type := mkWorld {
  permits : list Permit.t;
  clock_reads : nat;
  urandom_calls : nat
}.

(** The state at import time: [permits = []], nothing read or drawn yet. *)
Definition startup : World :=
  {| permits := []; clock_reads := 0; urandom_calls := 0 |}.

(** Handlers are state transformers over the world. *)
Definition M (A : Type) : Type := World → A * World.

Definition ret {A : Type} (a : A) : M A := λ w, (a, w).

Definition bind {A B : Type} (m : M A) (k : A → M B) : M B :=
  λ w, let '(a, w') := m w in k a w'.

Declare Scope handler_scope.
Delimit Scope handler_scope with handler.
Notation "'do' x <- m ; k" := (bind m (λ x, k))
  (at level 10, x name, m at level 100, k at level 200) : handler_scope.
Notation "'do' ' m ; k" := (bind m (λ _, k))
  (at level 10, m at level 100, k at level 200) : handler_scope.

(** The JSON values of a request body, after JSON parsing.  FastAPI hands
    the parsed body to pydantic, which validates it against the schema. *)
Inductive Body (JValue : Type) : Type :=
  | NotAnObject
  | Object (fields : gmap string JValue).
Arguments NotAnObject {JValue}.
Arguments Object {JValue} fields.

(** What a route answers: the handler's value with status 200, or, for a
    body that fails validation, the framework's validation report with
    status 422, or status 500 when the framework fails to render that
    report. *)
Inductive Response (A : Type) : Type :=
  | OK_200 (body : A)
  | Unprocessable_422
  | Internal_500.
Arguments OK_200 {A} body.
Arguments Unprocessable_422 {A}.
Arguments Internal_500 {A}.

(** The client errors are the statuses 400 to 499. *)
Definition is_client_error {A : Type} (r : Response A) : bool :=
  match r with Unprocessable_422 => true | _ => false end.

(** A request to one of the two routes that [main.py] registers through
    [app.include_router(permits.router)]. *)
Inductive Request (JValue : Type) : Type :=
  | POST_permits (b : Body JValue)
  | GET_permits.
Arguments POST_permits {JValue} b.
Arguments GET_permits {JValue}.

(** The answer to a request, by route. *)
Inductive Answer : Type :=
  | Posted (r : Response Permit.t)
  | Got (r : Response (list Permit.t)).

(** A call of one of the two operations. *)
Inductive Call : Type :=
  | CallCreate (permit : PermitCreate.t)
  | CallList.

(** The environment of a process run: [clock k] is the value of the [k]-th
    [datetime.now()], [urandom k] the non-negative integer that
    [int.from_bytes] reads from the bytes of the [k]-th [os.urandom(16)],
    which is where [uuid4] takes its bits. *)
Class Env : Type := {
  clock : nat → datetime;
  urandom : nat → N
}.

(** pydantic's validators for the field types [int] and [str], over the
    JSON values of a parsed body; which values they accept depends on the
    pydantic version and mode, so they are left open.  [error_renders b]
    says whether the framework can render its validation report for the
    body [b] as JSON; it cannot when the report quotes a value that JSON
    has no text for, such as the float that Python reads from [NaN] or
    [1E400]. *)
Class Validators : Type := {
  JValue : Type;
  validate_int : JValue → option Z;
  validate_str : JValue → option string;
  error_renders : Body JValue → bool
}.

(** The UUIDs built from the first [n] draws are pairwise different. *)
Definition fresh_draws (urandom : nat → N) (n : nat) : Prop :=
  NoDup ((λ k, UUID.with_version4 (Z.of_N (urandom k))) <$> seq 0 n).

(** Successive reads of the clock never go back. *)
Definition non_decreasing (clock : nat → datetime) : Prop :=
  ∀ k : nat, clock k ≤ clock (S k).

(** In a run that starts at [startup] the [k]-th create call makes the
    clock reads number [2 * k] and [2 * k + 1]; this says that the two
    reads of every call fall on the same instant. *)
Definition same_instant_per_call (clock : nat → datetime) : Prop :=
  ∀ k : nat, clock (2 * k)%nat = clock (2 * k + 1)%nat.

Section Handlers.

Context {env : Env}.

Local Open Scope handler_scope.

(** [datetime.now()] *)
Definition datetime_now : M datetime :=
  λ w, (clock (clock_reads w),
        {| permits := permits w;
           clock_reads := S (clock_reads w);
           urandom_calls := urandom_calls w |}).

(** The UUID built from the [k]-th draw. *)
Definition drawn_uuid (k : nat) : UUID.t :=
  UUID.with_version4 (Z.of_N (urandom k)).

(** [uuid4()]: [UUID(bytes=os.urandom(16), version=4)] *)
Definition uuid4 : M UUID.t :=
  λ w, (drawn_uuid (urandom_calls w),
        {| permits := permits w;
           clock_reads := clock_reads w;
           urandom_calls := S (urandom_calls w) |}).

(** [permits.append(p)] *)
Definition permits_append (p : Permit.t) : M unit :=
  λ w, (tt,
        {| permits := permits w ++ [p];
           clock_reads := clock_reads w;
           urandom_calls := urandom_calls w |}).

(** [create_permit]: the keyword arguments of [Permit(...)] are evaluated
    from left to right, so [uuid4()] is called first, then [datetime.now()]
    for [submitted_at], then [datetime.now()] again for [updated_at]. *)
Definition create_permit (permit : PermitCreate.t) : M Permit.t :=
  do u <- uuid4;
  do submitted <- datetime_now;
  do updated <- datetime_now;
  let new_permit :=
    {| Permit.id := UUID.str u;
       Permit.user_id := "demo_user";
       Permit.type := PermitCreate.type permit;
       Permit.county_id := PermitCreate.county_id permit;
       Permit.status := "application";
       Permit.current_step := "application";
       Permit.submitted_at := submitted;
       Permit.updated_at := updated;
       Permit.offline_submission := false |} in
  do ' permits_append new_permit;
  ret new_permit.

(** [list_permits]: [return permits] *)
Definition list_permits : M (list Permit.t) :=
  λ w, (permits w, w).

(** One call, keeping only the world it leaves behind. *)
Definition step (w : World) (c : Call) : World :=
  match c with
  | CallCreate permit => snd (create_permit permit w)
  | CallList => snd (list_permits w)
  end.

(** A sequence of calls, issued one after the other. *)
Definition run (cs : list Call) (w : World) : World :=
  foldl step w cs.

(** A sequence of create calls, collecting the records they return. *)
Fixpoint creates (ps : list PermitCreate.t) : M (list Permit.t) :=
  match ps with
  | [] => ret []
  | p :: ps' =>
      do r <- create_permit p;
      do rs <- creates ps';
      ret (r :: rs)
  end.

(** The same payload submitted to create two times in a row. *)
Definition create_twice (permit : PermitCreate.t)
  : M (Permit.t * Permit.t) :=
  do r1 <- create_permit permit;
  do r2 <- create_permit permit;
  ret (r1, r2).

(** *** Properties of the environment and of records *)

(** The fields that [create_permit] fills with constants. *)
Definition has_defaults (r : Permit.t) : Prop :=
  Permit.status r = "application" ∧
  Permit.current_step r = "application" ∧
  Permit.offline_submission r = false ∧
  Permit.user_id r = "demo_user".

(** The fields that [create_permit] copies from the request. *)
Definition echoes (permit : PermitCreate.t) (r : Permit.t) : Prop :=
  Permit.county_id r = PermitCreate.county_id permit ∧
  Permit.type r = PermitCreate.type permit.

(** The shape of a world reached from [startup]: one draw and two clock
    reads per stored record, and the record at position [k] was made
    from draw [k] and from the reads [2 * k] and [2 * k + 1]. *)
Record reached (w : World) : Prop := {
  reached_draws : urandom_calls w = length (permits w);
  reached_reads : clock_reads w = (2 * length (permits w))%nat;
  reached_record : ∀ k r, permits w !! k = Some r →
    Permit.id r = UUID.str (drawn_uuid k) ∧
    Permit.submitted_at r = clock (2 * k)%nat ∧
    Permit.updated_at r = clock (2 * k + 1)%nat ∧
    has_defaults r
}.

(** *** The HTTP routes *)

Section Routes.

Context {V : Validators}.

(** Validation of a body against [PermitCreate]: the body must be an
    object, both fields are required, each must pass its validator. *)
Definition PermitCreate_validate (b : Body JValue)
  : option PermitCreate.t :=
  match b with
  | NotAnObject => None
  | Object fields =>
      c ← fields !! "county_id" ≫= validate_int;
      t ← fields !! "type" ≫= validate_str;
      Some {| PermitCreate.county_id := c; PermitCreate.type := t |}
  end.

(** Modelled from the spec: the request-parsing layer of the web
    framework, which [@router.post("/permits", response_model=Permit)]
    and the parameter [permit: PermitCreate] call for and which is not
    part of the repository.  Validation errors are handled by this layer
    before the create operation is invoked: the handler runs only on a
    body that validates.  A body that does not is answered with the
    validation report, status 422, or with status 500 when the report
    cannot be rendered. *)
Definition post_permits (b : Body JValue) : M (Response Permit.t) :=
  match PermitCreate_validate b with
  | Some permit => do r <- create_permit permit; ret (OK_200 r)
  | None =>
      if error_renders b then ret Unprocessable_422 else ret Internal_500
  end.

(** [@router.get("/permits", response_model=list[Permit])] *)
Definition get_permits : M (Response (list Permit.t)) :=
  do l <- list_permits; ret (OK_200 l).

(** The answer of the application to one request. *)
Definition handle (q : Request JValue) : M Answer :=
  match q with
  | POST_permits b => do r <- post_permits b; ret (Posted r)
  | GET_permits => do r <- get_permits; ret (Got r)
  end.

(** A sequence of requests, served one after the other. *)
Fixpoint serve (qs : list (Request JValue)) : M (list Answer) :=
  match qs with
  | [] => ret []
  | q :: qs' =>
      do a <- handle q;
      do answers <- serve qs';
      ret (a :: answers)
  end.

End Routes.

End Handlers.

(** ** Sample environments and requests *)

(** A clock that advances by one microsecond at every read. *)
Definition ticking_clock : nat → datetime := Z.of_nat.

(** A clock that advances by one microsecond every second read. *)
Definition coarse_clock : nat → datetime := λ k, Z.of_nat (k / 2).

(** A random source whose [k]-th draw is the number [k]. *)
Definition counting_urandom : nat → N := N.of_nat.

(** The sample environments. *)
Definition ticking_env : Env :=
  {| clock := ticking_clock; urandom := counting_urandom |}.

Definition coarse_env : Env :=
  {| clock := coarse_clock; urandom := counting_urandom |}.

Definition roofing : PermitCreate.t :=
  {| PermitCreate.county_id := 12; PermitCreate.type := "roofing" |}.

(** The world after one create call for [roofing] since startup, on the
    ticking clock and the counting random source. *)
Definition one_permit : World :=
  (@create_permit ticking_env roofing startup).2.

(** A create call followed by a list call. *)
Definition create_then_list : list Call := [CallCreate roofing; CallList].

(** Scalar JSON values, with validators that accept a JSON integer for
    [int] and a JSON string for [str] and nothing else. *)
Inductive JScalar : Type :=
  | JNull
  | JBool (b : bool)
  | JInt (z : Z)
  | JString (s : string)
  | JNonFinite.

Definition strict_int (v : JScalar) : option Z :=
  match v with JInt z => Some z | _ => None end.

Definition strict_str (v : JScalar) : option string :=
  match v with JString s => Some s | _ => None end.

(** [JNonFinite] stands for the floats that Python's [json] module reads
    from [NaN], [Infinity] and numbers such as [1E400]; a validation
    report that quotes one as the value of [county_id] or [type] cannot
    be rendered. *)
Definition is_non_finite (v : option JScalar) : bool :=
  match v with Some JNonFinite => true | _ => false end.

Definition strict_renders (b : Body JScalar) : bool :=
  match b with
  | NotAnObject => true
  | Object fields =>
      negb (is_non_finite (fields !! "county_id")) &&
      negb (is_non_finite (fields !! "type"))
  end.

Definition strict : Validators :=
  {| JValue := JScalar;
     validate_int := strict_int;
     validate_str := strict_str;
     error_renders := strict_renders |}.

(** [{"county_id": "twelve", "type": "roofing"}] *)
Definition malformed_body : Body (@JValue strict) :=
  Object (<["county_id" := JString "twelve"]>
          (<["type" := JString "roofing"]> ∅)).

(** [{"county_id": NaN, "type": "roofing"}] *)
Definition nan_body : Body (@JValue strict) :=
  Object (<["county_id" := JNonFinite]>
          (<["type" := JString "roofing"]> ∅)).

(** [{"county_id": 12, "type": "roofing"}] *)
Definition roofing_body : Body (@JValue strict) :=
  Object (<["county_id" := JInt 12]> (<["type" := JString "roofing"]> ∅)).

(** ** Further definitions *)

(** The payloads of the create calls of a sequence of calls, in order. *)
Definition payloads (cs : list Call) : list PermitCreate.t :=
  omap (λ c, match c with CallCreate p => Some p | CallList => None end) cs.

(** The six bits that [UUID(..., version=4)] overwrites: the variant bits 62
    and 63 and the version bits 76 to 79. *)
Definition fixed_bit (i : Z) : bool :=
  (i =? 62) || (i =? 63) || (i =? 76) || (i =? 77) || (i =? 78) || (i =? 79).

Section Records_of_a_run.

Context {env : Env}.

(** The record that the create call number [k] of a run from [startup]
    stores for the payload [p]. *)
Definition record_at (k : nat) (p : PermitCreate.t) : Permit.t :=
  {| Permit.county_id := PermitCreate.county_id p;
     Permit.type := PermitCreate.type p;
     Permit.id := UUID.str (drawn_uuid k);
     Permit.user_id := "demo_user";
     Permit.status := "application";
     Permit.current_step := "application";
     Permit.submitted_at := clock (2 * k)%nat;
     Permit.updated_at := clock (2 * k + 1)%nat;
     Permit.offline_submission := false |}.

End Records_of_a_run.

(** A random source whose first two draws differ, but only in bits that
    [UUID(..., version=4)] overwrites. *)
Definition colliding_urandom : nat → N :=
  λ k, match k with O => 0%N | S _ => 0xf000c000000000000000%N end.

Definition colliding_env : Env :=
  {| clock := ticking_clock; urandom := colliding_urandom |}.

(** A clock that stands still and a random source that repeats itself. *)
Definition frozen_env : Env :=
  {| clock := λ _, 0; urandom := λ _, 0%N |}.

(** The requests around the malformed POST of the samples: a GET before
    it, the roofing POST and a GET after it. *)
Definition sample_requests_before : list (Request (@JValue strict)) :=
  [GET_permits].

Definition sample_requests_after : list (Request (@JValue strict)) :=
  [POST_permits roofing_body; GET_permits].

(** Two create calls with a list call in between. *)
Definition create_list_create : list Call :=
  [CallCreate roofing; CallList; CallCreate roofing].

(** The fields of [{"county_id": 12, "type": "roofing"}]. *)
Definition roofing_fields : gmap string (@JValue strict) :=
  <["county_id" := JInt 12]> (<["type" := JString "roofing"]> ∅).

(** ** Facts about the UUID text form *)

Section UUID_facts.

Import UUID.

(** Different digit values print as different characters. *)
Lemma hexchar_inj a b :
  0 ≤ a < 16 → 0 ≤ b < 16 → hexchar a = hexchar b → a = b.
Proof.
  intros Ha Hb.
  assert (Hc : ∀ d, 0 ≤ d < 16 → ∃ n : nat, (n < 16)%nat ∧ d = Z.of_nat n).
  { intros d Hd. exists (Z.to_nat d). lia. }
  destruct (Hc a Ha) as (m & Hm & ->), (Hc b Hb) as (n & Hn & ->).
  unfold hexchar. rewrite !Nat2Z.id.
  do 16 (destruct m as [|m];
         [ do 16 (destruct n as [|n]; [ first [ reflexivity | discriminate ] | ]);
           lia
         | ]).
  lia.
Qed.

Lemma hex_fixed_length k n : length (hex_fixed k n) = k.
Proof.
  revert n. induction k as [|k IH]; intros n; simpl; [done|].
  rewrite length_app, IH. simpl. lia.
Qed.

(** [k] digits determine a number below [16 ^ k]. *)
Lemma hex_fixed_inj k a b :
  0 ≤ a < 16 ^ Z.of_nat k → 0 ≤ b < 16 ^ Z.of_nat k →
  hex_fixed k a = hex_fixed k b → a = b.
Proof.
  revert a b. induction k as [|k IH]; intros a b Ha Hb H.
  - simpl in *. lia.
  - simpl in H. apply app_inj_tail in H as [Hhi Hlo].
    rewrite Nat2Z.inj_succ, Z.pow_succ_r in Ha, Hb by lia.
    apply IH in Hhi;
      [| split; [apply Z.div_pos; lia | apply Z.div_lt_upper_bound; lia] ..].
    apply hexchar_inj in Hlo; [| apply Z.mod_pos_bound; lia ..].
    rewrite (Z.div_mod a 16), (Z.div_mod b 16) by lia. congruence.
Qed.

(** [hex_len n] digits are enough for [n]. *)
Lemma hex_len_bound n : 0 ≤ n → n < 16 ^ Z.of_nat (hex_len n).
Proof.
  intros Hn. unfold hex_len.
  assert (H4 : 0 ≤ Z.log2 n / 4)
    by (apply Z.div_pos; [apply Z.log2_nonneg | lia]).
  rewrite Z2Nat.id by lia.
  replace 16 with (2 ^ 4) by reflexivity. rewrite <- Z.pow_mul_r by lia.
  destruct (Z.eq_dec n 0) as [-> | Hne].
  - apply Z.pow_pos_nonneg; lia.
  - apply Z.log2_lt_pow2; [lia|].
    pose proof (Z.mod_pos_bound (Z.log2 n) 4 ltac:(lia)).
    pose proof (Z.div_mod (Z.log2 n) 4 ltac:(lia)). lia.
Qed.

Lemma format_032x_length n :
  length (format_032x n) = Nat.max 32 (hex_len n).
Proof. apply hex_fixed_length. Qed.

(** ['%032x'] is injective on the non-negative integers: equal outputs
    have equal widths, and the width bounds both numbers. *)
Lemma format_032x_inj a b :
  0 ≤ a → 0 ≤ b → format_032x a = format_032x b → a = b.
Proof.
  intros Ha Hb H.
  assert (Hk : Nat.max 32 (hex_len a) = Nat.max 32 (hex_len b)).
  { rewrite <- !format_032x_length. by rewrite H. }
  unfold format_032x in H. rewrite <- Hk in H.
  assert (Hmono : ∀ n k, 0 ≤ n → (hex_len n ≤ k)%nat → n < 16 ^ Z.of_nat k).
  { intros n k Hn Hle. eapply Z.lt_le_trans; [by apply hex_len_bound|].
    apply Z.pow_le_mono_r; lia. }
  eapply hex_fixed_inj; [ | | exact H]; (split; [lia | apply Hmono; lia]).
Qed.

(** The five slices of [UUID.__str__] cover the digits, in order. *)
Lemma unslice {A} (l : list A) :
  l = slice 0 8 l ++ slice 8 12 l ++ slice 12 16 l ++ slice 16 20 l
      ++ drop 20 l.
Proof.
  unfold slice. cbn [Nat.sub]. rewrite drop_0.
  change 20%nat with (16 + 4)%nat. rewrite <- drop_drop, take_drop.
  change 16%nat with (12 + 4)%nat. rewrite <- drop_drop, take_drop.
  change 12%nat with (8 + 4)%nat. rewrite <- drop_drop, take_drop.
  by rewrite take_drop.
Qed.

Lemma slice_length {A} a b (l : list A) :
  (b ≤ length l)%nat → length (slice a b l) = (b - a)%nat.
Proof. intros H. unfold slice. rewrite length_take, length_drop. lia. Qed.

(** The dashes can be taken out again. *)
Lemma dashed_inj l1 l2 :
  (20 ≤ length l1)%nat → (20 ≤ length l2)%nat →
  dashed l1 = dashed l2 → l1 = l2.
Proof.
  intros H1 H2 H. unfold dashed in H.
  apply app_inj_1 in H as [E1 H]; [| rewrite !slice_length; lia].
  injection H as H.
  apply app_inj_1 in H as [E2 H]; [| rewrite !slice_length; lia].
  injection H as H.
  apply app_inj_1 in H as [E3 H]; [| rewrite !slice_length; lia].
  injection H as H.
  apply app_inj_1 in H as [E4 H]; [| rewrite !slice_length; lia].
  injection H as H.
  rewrite (unslice l1), (unslice l2). congruence.
Qed.

(** Setting the version and variant bits keeps the integer non-negative. *)
Lemma with_version4_nonneg n : 0 ≤ n → 0 ≤ with_version4 n.
Proof.
  intros Hn. unfold with_version4.
  apply Z.lor_nonneg. split; [| done].
  apply Z.land_nonneg. left.
  apply Z.lor_nonneg. split; [| done].
  apply Z.land_nonneg. by left.
Qed.

(** Different UUIDs have different text forms. *)
Lemma str_inj a b : 0 ≤ a → 0 ≤ b → str a = str b → a = b.
Proof.
  intros Ha Hb H. unfold str in H.
  apply (f_equal list_ascii_of_string) in H.
  rewrite !list_ascii_of_string_of_list_ascii in H.
  apply dashed_inj in H;
    [by apply format_032x_inj | rewrite format_032x_length; lia ..].
Qed.

(** The text form of a UUID is never empty: it has four dashes. *)
Lemma str_nonempty u : str u ≠ "".
Proof.
  unfold str, dashed. intros H.
  apply (f_equal list_ascii_of_string) in H.
  rewrite list_ascii_of_string_of_list_ascii in H. simpl in H.
  by destruct (slice 0 8 (format_032x u)).
Qed.

End UUID_facts.

(** ** Properties of the handlers *)

Section Properties.

Context {env : Env}.

(** *** What one create call does, field by field *)

Lemma create_store p w :
  permits (create_permit p w).2 = permits w ++ [(create_permit p w).1].
Proof. reflexivity. Qed.

(** A create call reads the clock two times and draws once. *)
Lemma create_clock_reads p w :
  clock_reads (create_permit p w).2 = S (S (clock_reads w)).
Proof. reflexivity. Qed.

Lemma create_urandom_calls p w :
  urandom_calls (create_permit p w).2 = S (urandom_calls w).
Proof. reflexivity. Qed.

Lemma create_id p w :
  Permit.id (create_permit p w).1 = UUID.str (drawn_uuid (urandom_calls w)).
Proof. reflexivity. Qed.

Lemma create_stamps p w :
  Permit.submitted_at (create_permit p w).1 = clock (clock_reads w) ∧
  Permit.updated_at (create_permit p w).1 = clock (S (clock_reads w)).
Proof. split; reflexivity. Qed.

Lemma create_defaults p w : has_defaults (create_permit p w).1.
Proof. repeat split. Qed.

Lemma create_echoes p w : echoes p (create_permit p w).1.
Proof. split; reflexivity. Qed.

Lemma drawn_uuid_nonneg k : 0 ≤ drawn_uuid k.
Proof. apply with_version4_nonneg, N2Z.is_nonneg. Qed.

(** *** Sequences of calls *)

Lemma run_cons c cs w : run (c :: cs) w = run cs (step w c).
Proof. reflexivity. Qed.

Lemma run_snoc cs c w : run (cs ++ [c]) w = step (run cs w) c.
Proof. unfold run. by rewrite foldl_app. Qed.

Lemma step_prefix w c : permits w `prefix_of` permits (step w c).
Proof.
  destruct c as [p|]; simpl; [| done].
  by apply prefix_app_r.
Qed.

Lemma run_prefix cs w : permits w `prefix_of` permits (run cs w).
Proof.
  revert w. induction cs as [|c cs IH]; intros w; [done|].
  rewrite run_cons. etrans; [apply step_prefix | apply IH].
Qed.

(** [reached] holds at startup and is kept by every call. *)
Lemma reached_startup : reached startup.
Proof. split; [done | done | intros k r H; by destruct k]. Qed.

Lemma reached_step w c : reached w → reached (step w c).
Proof.
  intros [Hd Hr Hrec]. destruct c as [p|]; [| by split].
  split.
  - simpl. rewrite length_app. simpl. lia.
  - simpl. rewrite length_app. simpl. lia.
  - intros k r. change (step w (CallCreate p)) with (create_permit p w).2.
    rewrite create_store. intros [Hk | [Hk Hlast]]%lookup_app_Some.
    + by apply Hrec.
    + destruct (k - length (permits w))%nat as [|?] eqn:E; [| done].
      assert (k = length (permits w)) as -> by lia.
      injection Hlast as <-.
      cbn [Permit.id Permit.submitted_at Permit.updated_at].
      rewrite Hd, Hr. repeat split; f_equal; lia.
Qed.

Lemma reached_run cs : reached (run cs startup).
Proof.
  induction cs as [|c cs IH] using rev_ind; [apply reached_startup|].
  rewrite run_snoc. by apply reached_step.
Qed.

(** *** Freshness of the drawn UUIDs *)

Lemma fresh_draws_inj n i j :
  fresh_draws urandom n → (i < n)%nat → (j < n)%nat →
  drawn_uuid i = drawn_uuid j → i = j.
Proof.
  intros Hnd Hi Hj Heq. change (NoDup (drawn_uuid <$> seq 0 n)) in Hnd.
  apply (proj1 (NoDup_alt _) Hnd i j (drawn_uuid i));
    rewrite list_lookup_fmap, lookup_seq_lt by done; simpl; congruence.
Qed.

(** The ids in a reached store are the text forms of the draws, in
    order. *)
Lemma reached_ids w :
  reached w →
  Permit.id <$> permits w
  = UUID.str <$> (drawn_uuid <$> seq 0 (length (permits w))).
Proof.
  intros Hw. apply list_eq. intros k.
  rewrite !list_lookup_fmap.
  destruct (permits w !! k) as [r|] eqn:E; simpl.
  - rewrite lookup_seq_lt by (by eapply lookup_lt_Some). simpl.
    by destruct (reached_record _ Hw k r E) as [-> _].
  - by rewrite lookup_seq_ge by (by apply lookup_ge_None).
Qed.

Lemma reached_ids_NoDup w :
  reached w → fresh_draws urandom (urandom_calls w) →
  NoDup (Permit.id <$> permits w).
Proof.
  intros Hw Hf. rewrite (reached_ids w Hw), <- (reached_draws _ Hw).
  change (NoDup (drawn_uuid <$> seq 0 (urandom_calls w))) in Hf.
  apply NoDup_fmap_2_strong; [| exact Hf].
  intros a b [i [-> _]]%list_elem_of_fmap [j [-> _]]%list_elem_of_fmap.
  apply str_inj; apply drawn_uuid_nonneg.
Qed.

Lemma reached_stamps cs k r :
  permits (run cs startup) !! k = Some r →
  Permit.submitted_at r = clock (2 * k)%nat ∧
  Permit.updated_at r = clock (2 * k + 1)%nat.
Proof.
  intros H.
  destruct (reached_record _ (reached_run cs) k r H) as (_ & ? & ? & _).
  done.
Qed.

Lemma non_decreasing_le i j :
  non_decreasing clock → (i ≤ j)%nat → clock i ≤ clock j.
Proof.
  intros Hmono Hij. induction Hij as [|j _ IH]; [lia|].
  specialize (Hmono j). lia.
Qed.

Lemma creates_cons p ps w :
  creates (p :: ps) w
  = ((create_permit p w).1 :: (creates ps (create_permit p w).2).1,
     (creates ps (create_permit p w).2).2).
Proof.
  cbn [creates]. unfold bind at 1 2. cbn [create_permit fst snd].
  destruct (create_permit p w) as [r w1].
  cbn [fst snd]. by destruct (creates ps w1).
Qed.

Lemma creates_run ps w :
  (creates ps w).2 = run (CallCreate <$> ps) w.
Proof.
  revert w. induction ps as [|p ps IH]; intros w; [done|].
  by rewrite creates_cons, fmap_cons, run_cons, <- IH.
Qed.

Lemma creates_store ps w :
  permits (creates ps w).2
  = permits w ++ (creates ps w).1.
Proof.
  revert w. induction ps as [|p ps IH]; intros w.
  - simpl. by rewrite app_nil_r.
  - rewrite creates_cons. cbn [fst snd].
    by rewrite IH, create_store, <- app_assoc.
Qed.

Lemma creates_echo ps w :
  Forall2 echoes ps (creates ps w).1.
Proof.
  revert w. induction ps as [|p ps IH]; intros w; [by constructor|].
  rewrite creates_cons. cbn [fst].
  constructor; [apply create_echoes | apply IH].
Qed.

Lemma create_twice_eq p w :
  create_twice p w
  = (((create_permit p w).1, (create_permit p (create_permit p w).2).1),
     (create_permit p (create_permit p w).2).2).
Proof. reflexivity. Qed.

(** ** The claims *)

(** C6.  A create call appends exactly one record: the store afterwards
    is the store before followed by the record the call returns; that
    record is the new last element, the length grows by one, and the
    old store is what remains when the last element is cut off. *)
Theorem create_appends_exactly_one p w :
  permits (create_permit p w).2 = permits w ++ [(create_permit p w).1] ∧
  last (permits (create_permit p w).2) = Some (create_permit p w).1 ∧
  length (permits (create_permit p w).2) = S (length (permits w)) ∧
  take (length (permits w)) (permits (create_permit p w).2) = permits w.
Proof.
  rewrite create_store. split_and!.
  - done.
  - apply last_snoc.
  - rewrite length_app. simpl. lia.
  - by rewrite take_app_length.
Qed.

(** C8.  The record returned by create carries the [county_id] and the
    [type] of the request unchanged, and a list call that follows
    contains that record. *)
Theorem create_echoes_request p w :
  Permit.county_id (create_permit p w).1 = PermitCreate.county_id p ∧
  Permit.type (create_permit p w).1 = PermitCreate.type p ∧
  (create_permit p w).1 ∈ (list_permits (create_permit p w).2).1.
Proof.
  split_and!; [done | done |].
  unfold list_permits. cbn [fst]. rewrite create_store.
  apply elem_of_app. right. apply list_elem_of_singleton. done.
Qed.

(** C4.  The record returned by create has [status] and [current_step]
    equal to ["application"], [offline_submission] false and [user_id]
    equal to ["demo_user"]; so has every record that list returns after
    any sequence of calls since startup. *)
Theorem fixed_defaults p w cs :
  has_defaults (create_permit p w).1 ∧
  Forall has_defaults (list_permits (run cs startup)).1.
Proof.
  split; [apply create_defaults|].
  apply Forall_lookup. intros k r H.
  by destruct (reached_record _ (reached_run cs) k r H) as (_ & _ & _ & ?).
Qed.

(** C2.  After the create calls for the requests [ps], issued one after
    the other from startup, list returns exactly the records those calls
    returned, in the order of the calls: as many records as requests, the
    [k]-th record carrying the fields of the [k]-th request. *)
Theorem list_after_creates ps :
  (list_permits (creates ps startup).2).1
  = (creates ps startup).1 ∧
  length (list_permits (creates ps startup).2).1
  = length ps ∧
  Forall2 echoes ps (list_permits (creates ps startup).2).1.
Proof.
  assert (E : (list_permits (creates ps startup).2).1
              = (creates ps startup).1).
  { unfold list_permits. cbn [fst]. by rewrite creates_store. }
  rewrite E. pose proof (creates_echo ps startup) as He.
  split_and!; [done | | done].
  symmetry. by eapply Forall2_length.
Qed.

(** C9.  A record stored at position [i] is still at position [i], with
    the same fields, after any further sequence of create and list
    calls: the old store is a prefix of the new one.  A list call
    returns the store as it is and leaves the world as it found it. *)
Theorem stored_records_unchanged cs w i r :
  permits w !! i = Some r →
  permits (run cs w) !! i = Some r ∧
  permits w `prefix_of` permits (run cs w) ∧
  list_permits (run cs w) = (permits (run cs w), run cs w) ∧
  step w CallList = w.
Proof.
  intros Hi. split_and!; [| apply run_prefix | done | done].
  destruct (run_prefix cs w) as [tail ->].
  by apply lookup_app_l_Some.
Qed.

(** C10.  A create call reads the clock for [submitted_at] first and for
    [updated_at] directly afterwards; when successive clock reads never
    go back, the record it returns has [submitted_at <= updated_at], and
    so has every record stored since startup. *)
Theorem submitted_not_after_updated p w cs :
  non_decreasing clock →
  (Permit.submitted_at (create_permit p w).1 = clock (clock_reads w) ∧
   Permit.updated_at (create_permit p w).1 = clock (S (clock_reads w))) ∧
  Permit.submitted_at (create_permit p w).1
  ≤ Permit.updated_at (create_permit p w).1 ∧
  Forall (λ r, Permit.submitted_at r ≤ Permit.updated_at r)
         (list_permits (run cs startup)).1.
Proof.
  intros Hmono. split_and!; [done | done | apply Hmono |].
  apply Forall_lookup. intros k r H.
  destruct (reached_stamps cs k r H) as [-> ->].
  apply non_decreasing_le; [done | lia].
Qed.

(** C1, amended.  In a run from startup in which the two clock reads of
    every create call return the same instant, the record returned by
    create has [submitted_at = updated_at], and so has every record that
    list returns. *)
Theorem stamps_equal_when_reads_coincide cs p :
  same_instant_per_call clock →
  Permit.submitted_at (create_permit p (run cs startup)).1
  = Permit.updated_at (create_permit p (run cs startup)).1 ∧
  Forall (λ r, Permit.submitted_at r = Permit.updated_at r)
         (list_permits (run cs startup)).1.
Proof.
  intros Hsame. split.
  - destruct (create_stamps p (run cs startup)) as [-> ->].
    rewrite (reached_reads _ (reached_run cs)).
    rewrite (Hsame (length (permits (run cs startup)))). f_equal. lia.
  - apply Forall_lookup. intros k r H.
    destruct (reached_stamps cs k r H) as [-> ->]. apply Hsame.
Qed.

(** *** The routes *)

Section Route_properties.

Context {V : Validators}.

(** A body fails validation when it is not an object, when a field is
    missing, or when a field does not pass its validator. *)
Lemma validate_None b :
  PermitCreate_validate b = None ↔
  b = NotAnObject ∨
  ∃ fields, b = Object fields ∧
    (fields !! "county_id" ≫= validate_int = None ∨
     fields !! "type" ≫= validate_str = None).
Proof.
  destruct b as [|fields]; simpl.
  - split; [by left | done].
  - split.
    + intros H. right. exists fields. split; [done|].
      destruct (fields !! "county_id" ≫= validate_int); [| by left].
      destruct (fields !! "type" ≫= validate_str); [done | by right].
    + intros [? | (f & [= <-] & [-> | ->])]; [done | done |].
      by destruct (fields !! "county_id" ≫= validate_int).
Qed.

Lemma post_permits_valid b permit w :
  PermitCreate_validate b = Some permit →
  post_permits b w
  = (OK_200 (create_permit permit w).1, (create_permit permit w).2).
Proof. intros H. unfold post_permits. by rewrite H. Qed.

End Route_properties.

End Properties.

(** ** The claims at sample inputs *)

Lemma coarse_clock_same_instant : same_instant_per_call coarse_clock.
Proof.
  intros k. unfold coarse_clock. f_equal.
  rewrite (Nat.mul_comm 2 k), Nat.div_mul by done.
  by rewrite Nat.div_add_l by done.
Qed.

(** The scenario of the specification: POST
    [{"county_id": 12, "type": "roofing"}] to the fresh service, then
    GET. *)
Example roofing_scenario :
  @post_permits ticking_env strict roofing_body startup
  = (OK_200 {| Permit.county_id := 12;
               Permit.type := "roofing";
               Permit.id := "00000000-0000-4000-8000-000000000000";
               Permit.user_id := "demo_user";
               Permit.status := "application";
               Permit.current_step := "application";
               Permit.submitted_at := 0;
               Permit.updated_at := 1;
               Permit.offline_submission := false |},
     one_permit) ∧
  (get_permits one_permit).1
  = OK_200 [(@create_permit ticking_env roofing startup).1].
Proof. split; vm_compute; reflexivity. Qed.

(** C1 fails as stated: on the ticking clock the record that create
    returns for [roofing] at startup has [submitted_at = 0] and
    [updated_at = 1], and list returns that very record. *)
Lemma stamps_differ_on_ticking_clock :
  Permit.submitted_at (@create_permit ticking_env roofing startup).1
  ≠ Permit.updated_at (@create_permit ticking_env roofing startup).1 ∧
  (list_permits (@create_permit ticking_env roofing startup).2).1
  = [(@create_permit ticking_env roofing startup).1].
Proof. split; [vm_compute; discriminate | reflexivity]. Qed.

(** The amended C1 on the coarse clock. *)
Lemma stamps_equal_when_reads_coincide_witness :
  same_instant_per_call coarse_clock ∧
  Permit.submitted_at
    (@create_permit coarse_env roofing
       (@run coarse_env [CallCreate roofing] startup)).1
  = Permit.updated_at
    (@create_permit coarse_env roofing
       (@run coarse_env [CallCreate roofing] startup)).1 ∧
  Forall (λ r, Permit.submitted_at r = Permit.updated_at r)
    (list_permits
       (@run coarse_env [CallCreate roofing] startup)).1.
Proof.
  split; [exact coarse_clock_same_instant|].
  apply (@stamps_equal_when_reads_coincide coarse_env
           [CallCreate roofing] roofing).
  exact coarse_clock_same_instant.
Defined.

Local Abbreviation sample_create := (@create_permit ticking_env).
Local Abbreviation sample_run := (@run ticking_env).
Local Abbreviation sample_twice := (@create_twice ticking_env).
Local Abbreviation sample_post := (@post_permits ticking_env strict).

(** C9 for the record stored first, across a create and a list call. *)
Lemma stored_records_unchanged_witness :
  permits one_permit !! 0%nat = Some (sample_create roofing startup).1 ∧
  permits (sample_run create_then_list one_permit) !! 0%nat
  = Some (sample_create roofing startup).1 ∧
  permits one_permit `prefix_of`
    permits (sample_run create_then_list one_permit) ∧
  list_permits (sample_run create_then_list one_permit)
  = (permits (sample_run create_then_list one_permit),
     sample_run create_then_list one_permit) ∧
  @step ticking_env one_permit CallList = one_permit.
Proof.
  assert (H0 : permits one_permit !! 0%nat
               = Some (sample_create roofing startup).1) by reflexivity.
  split; [exact H0|].
  exact (@stored_records_unchanged ticking_env
           create_then_list one_permit 0 _ H0).
Defined.

(** C10 on the ticking clock. *)
Lemma submitted_not_after_updated_witness :
  non_decreasing ticking_clock ∧
  (Permit.submitted_at (sample_create roofing one_permit).1
   = ticking_clock (clock_reads one_permit) ∧
   Permit.updated_at (sample_create roofing one_permit).1
   = ticking_clock (S (clock_reads one_permit))) ∧
  Permit.submitted_at (sample_create roofing one_permit).1
  ≤ Permit.updated_at (sample_create roofing one_permit).1 ∧
  Forall (λ r, Permit.submitted_at r ≤ Permit.updated_at r)
    (list_permits (sample_run create_then_list startup)).1.
Proof.
  assert (Hm : non_decreasing ticking_clock).
  { intros k. unfold ticking_clock. lia. }
  split; [exact Hm|].
  exact (@submitted_not_after_updated ticking_env
           roofing one_permit create_then_list Hm).
Defined.

(** ** Further properties *)

(** *** The bits of a version 4 UUID *)

(** Decides a bit of a constant below [2 ^ 16] at a symbolic position [j]:
    negative positions and positions from 16 on hold no bit, the sixteen
    others are tried in turn. *)
Ltac const_bit j :=
  destruct (Z.lt_ge_cases j 0);
  [ rewrite Z.testbit_neg_r by done;
    repeat match goal with
           | |- context [j =? ?c] => destruct (Z.eqb_spec j c); [lia|]
           end; reflexivity
  | destruct (Z.lt_ge_cases j 16);
    [ assert (Hj : ∃ m : nat, (m < 16)%nat ∧ j = Z.of_nat m)
        by (exists (Z.to_nat j); lia);
      destruct Hj as (m & Hm & ->);
      do 16 (destruct m as [|m]; [reflexivity|]); lia
    | rewrite Z.bits_above_log2 by (cbn; lia);
      repeat match goal with
             | |- context [j =? ?c] => destruct (Z.eqb_spec j c); [lia|]
             end; reflexivity ] ].

Lemma testbit_0xc000 j : Z.testbit 0xc000 j = (j =? 14) || (j =? 15).
Proof. const_bit j. Qed.

Lemma testbit_0x8000 j : Z.testbit 0x8000 j = (j =? 15).
Proof. const_bit j. Qed.

Lemma testbit_0xf000 j :
  Z.testbit 0xf000 j = (j =? 12) || (j =? 13) || (j =? 14) || (j =? 15).
Proof. const_bit j. Qed.

Lemma testbit_4 j : Z.testbit 4 j = (j =? 2).
Proof. const_bit j. Qed.

(** Bit by bit: [UUID(..., version=4)] sets the bits 63 and 78, clears the
    bits 62, 76, 77 and 79, and keeps every other bit. *)
Lemma with_version4_testbit n i :
  0 ≤ i →
  Z.testbit (UUID.with_version4 n) i
  = if (i =? 63) || (i =? 78) then true
    else if (i =? 62) || (i =? 76) || (i =? 77) || (i =? 79) then false
    else Z.testbit n i.
Proof.
  intros Hi. unfold UUID.with_version4.
  rewrite !Z.lor_spec, !Z.land_spec, !Z.lnot_spec, !Z.shiftl_spec by done.
  rewrite !Z.lor_spec, !Z.land_spec, !Z.lnot_spec, !Z.shiftl_spec by done.
  rewrite testbit_0xc000, testbit_0x8000, testbit_0xf000, testbit_4.
  destruct (Z.eqb_spec i 62) as [->|]; [by destruct (Z.testbit n 62)|].
  destruct (Z.eqb_spec i 63) as [->|]; [by destruct (Z.testbit n 63)|].
  destruct (Z.eqb_spec i 76) as [->|]; [by destruct (Z.testbit n 76)|].
  destruct (Z.eqb_spec i 77) as [->|]; [by destruct (Z.testbit n 77)|].
  destruct (Z.eqb_spec i 78) as [->|]; [by destruct (Z.testbit n 78)|].
  destruct (Z.eqb_spec i 79) as [->|]; [by destruct (Z.testbit n 79)|].
  repeat match goal with
         | |- context [?a =? ?c] => destruct (Z.eqb_spec a c); [lia|]
         end.
  simpl. by destruct (Z.testbit n i).
Qed.

(** A 128-bit integer stays a 128-bit integer. *)
Lemma with_version4_128 n :
  0 ≤ n < 2 ^ 128 → 0 ≤ UUID.with_version4 n < 2 ^ 128.
Proof.
  intros [Hn Hlt]. split; [by apply with_version4_nonneg|].
  assert (E : Z.land (UUID.with_version4 n) (Z.ones 128)
              = UUID.with_version4 n).
  { apply Z.bits_inj'. intros i Hi.
    rewrite Z.land_spec, Z.testbit_ones_nonneg by lia.
    destruct (Z.ltb_spec i 128); [apply andb_true_r|].
    rewrite andb_false_r, with_version4_testbit by done.
    repeat match goal with
           | |- context [i =? ?c] => destruct (Z.eqb_spec i c); [lia|]
           end.
    simpl. symmetry. destruct (Z.eq_dec n 0) as [->|]; [apply Z.bits_0|].
    apply Z.bits_above_log2; [done|].
    apply Z.log2_lt_pow2; [lia|].
    eapply Z.lt_le_trans; [exact Hlt | apply Z.pow_le_mono_r; lia]. }
  rewrite <- E, Z.land_ones by lia. apply Z.mod_pos_bound. lia.
Qed.

(** The hexadecimal digit at the bits 76 to 79 is the version, 4. *)
Lemma version_nibble n : (UUID.with_version4 n / 2 ^ 76) mod 16 = 4.
Proof.
  rewrite <- Z.shiftr_div_pow2 by lia.
  change 16 with (2 ^ 4). rewrite <- Z.land_ones by lia.
  apply Z.bits_inj'. intros i Hi.
  rewrite Z.land_spec, Z.shiftr_spec, Z.testbit_ones_nonneg, testbit_4 by lia.
  rewrite with_version4_testbit by lia.
  destruct (Z.ltb_spec i 4);
    [| rewrite andb_false_r; symmetry; apply Z.eqb_neq; lia].
  assert (i = 0 ∨ i = 1 ∨ i = 2 ∨ i = 3) as [-> | [-> | [-> | ->]]] by lia;
    reflexivity.
Qed.

Lemma variant_bits n : (UUID.with_version4 n / 2 ^ 62) mod 4 = 2.
Proof.
  rewrite <- Z.shiftr_div_pow2 by lia.
  change 4 with (2 ^ 2). rewrite <- Z.land_ones by lia.
  apply Z.bits_inj'. intros i Hi.
  rewrite Z.land_spec, Z.shiftr_spec, Z.testbit_ones_nonneg by lia.
  rewrite with_version4_testbit by lia.
  destruct (Z.ltb_spec i 2).
  - assert (i = 0 ∨ i = 1) as [-> | ->] by lia; reflexivity.
  - rewrite andb_false_r. symmetry.
    apply Z.bits_above_log2; [lia|]. simpl. lia.
Qed.

(** The hexadecimal digit at the bits 60 to 63 starts with the variant
    bits [10]: it is one of 8, 9, a and b. *)
Lemma variant_nibble n : 8 ≤ (UUID.with_version4 n / 2 ^ 60) mod 16 < 12.
Proof.
  pose proof (variant_bits n) as H.
  change (2 ^ 62) with (2 ^ 60 * 4) in H. rewrite <- Z.div_div in H by lia.
  generalize dependent (UUID.with_version4 n / 2 ^ 60). intros a H.
  Z.div_mod_to_equations. lia.
Qed.

(** The digit at position [i] of [k] digits. *)
Lemma hex_fixed_lookup k n i :
  (i < k)%nat →
  UUID.hex_fixed k n !! i
  = Some (UUID.hexchar ((n / 16 ^ Z.of_nat (k - 1 - i)) mod 16)).
Proof.
  revert n i. induction k as [|k IH]; intros n i Hi; [lia|].
  cbn [UUID.hex_fixed]. destruct (decide (i = k)) as [->|Hne].
  - rewrite lookup_app_r by (rewrite hex_fixed_length; lia).
    rewrite hex_fixed_length.
    replace (S k - 1 - k)%nat with 0%nat by lia.
    replace (k - k)%nat with 0%nat by lia.
    simpl. by rewrite Z.div_1_r.
  - rewrite lookup_app_l by (rewrite hex_fixed_length; lia).
    rewrite IH by lia. do 2 f_equal.
    replace (S k - 1 - i)%nat with (S (k - 1 - i)) by lia.
    rewrite Nat2Z.inj_succ, Z.pow_succ_r by lia.
    by rewrite Z.div_div by lia.
Qed.

(** A 128-bit integer prints as exactly 32 digits. *)
Lemma format_032x_128 n :
  0 ≤ n < 2 ^ 128 → UUID.format_032x n = UUID.hex_fixed 32 n.
Proof.
  intros [Hn Hlt]. unfold UUID.format_032x. f_equal.
  apply Nat.max_l. unfold UUID.hex_len.
  destruct (Z.eq_dec n 0) as [->|Hne]; [vm_compute; lia|].
  assert (Z.log2 n < 128) by (apply Z.log2_lt_pow2; lia).
  pose proof (Z.log2_nonneg n).
  assert (Z.log2 n / 4 < 32) by (apply Z.div_lt_upper_bound; lia).
  assert (0 ≤ Z.log2 n / 4) by (apply Z.div_pos; lia).
  lia.
Qed.

(** Where the dashes and two of the digits land when 32 digits are
    dashed. *)
Lemma dashed_32 (l : list ascii) :
  length l = 32%nat →
  length (UUID.dashed l) = 36%nat ∧
  UUID.dashed l !! 8%nat = Some "-"%char ∧
  UUID.dashed l !! 13%nat = Some "-"%char ∧
  UUID.dashed l !! 18%nat = Some "-"%char ∧
  UUID.dashed l !! 23%nat = Some "-"%char ∧
  UUID.dashed l !! 14%nat = l !! 12%nat ∧
  UUID.dashed l !! 19%nat = l !! 16%nat.
Proof.
  intros Hl.
  do 32 (destruct l as [|? l]; [discriminate Hl|]).
  destruct l; [| discriminate Hl].
  repeat split.
Qed.

Lemma length_string_of_list_ascii (l : list ascii) :
  String.length (string_of_list_ascii l) = length l.
Proof. induction l as [|a l IH]; simpl; congruence. Qed.

(** *** Runs, ids and routes *)

Section More_properties.

Context {env : Env}.

Lemma payloads_snoc cs c :
  payloads (cs ++ [c])
  = payloads cs ++ match c with CallCreate p => [p] | CallList => [] end.
Proof. unfold payloads. rewrite omap_app. by destruct c. Qed.

Lemma step_list w : step w CallList = w.
Proof. reflexivity. Qed.

(** X1.  List calls change nothing: a sequence of calls leaves the same
    world as its create calls alone, issued in the same order.  The store
    grows by one record, the clock is read two times and the random source
    is drawn from once per create call, whatever list calls lie between. *)
Theorem list_calls_are_observers cs w :
  run cs w = run (CallCreate <$> payloads cs) w ∧
  length (permits (run cs w))
  = (length (permits w) + length (payloads cs))%nat ∧
  clock_reads (run cs w)
  = (clock_reads w + 2 * length (payloads cs))%nat ∧
  urandom_calls (run cs w)
  = (urandom_calls w + length (payloads cs))%nat.
Proof.
  induction cs as [|c cs IH] using rev_ind.
  - cbn. split_and!; [done | lia ..].
  - destruct IH as (IHrun & IHlen & IHclock & IHdraws).
    rewrite payloads_snoc, run_snoc. destruct c as [p|].
    + rewrite fmap_app, length_app. cbn [fmap list_fmap length].
      rewrite run_snoc, <- IHrun.
      change (step (run cs w) (CallCreate p))
        with (create_permit p (run cs w)).2.
      rewrite create_store, create_clock_reads, create_urandom_calls.
      rewrite length_app. cbn [length]. split_and!; [done | lia ..].
    + rewrite step_list, app_nil_r. by split_and!.
Qed.

(** X2.  The store after any sequence of calls since startup: its
    [k]-th record carries the payload of the [k]-th create call, the text
    of the UUID of draw [k], the clock reads [2 * k] and [2 * k + 1], and
    the constant fields. *)
Theorem store_after_run cs :
  permits (run cs startup) = imap record_at (payloads cs).
Proof.
  induction cs as [|c cs IH] using rev_ind; [done|].
  rewrite payloads_snoc, run_snoc. destruct c as [p|].
  - change (step (run cs startup) (CallCreate p))
      with (create_permit p (run cs startup)).2.
    rewrite create_store, imap_app, <- IH. f_equal. cbn [imap].
    pose proof (reached_run cs) as Hr.
    assert (Hlen : length (payloads cs) = length (permits (run cs startup)))
      by (by rewrite IH, length_imap).
    rewrite Hlen, Nat.add_0_r. unfold record_at.
    rewrite <- (reached_draws _ Hr).
    replace (2 * urandom_calls (run cs startup))%nat
      with (clock_reads (run cs startup))
      by (by rewrite (reached_reads _ Hr), (reached_draws _ Hr)).
    f_equal. cbn. do 2 f_equal. lia.
  - by rewrite step_list, app_nil_r.
Qed.


(** The characters of the [id] that create returns, when the draw is the
    integer of 16 bytes. *)
Lemma create_id_chars p w :
  (urandom (urandom_calls w) < 2 ^ 128)%N →
  list_ascii_of_string (Permit.id (create_permit p w).1)
  = UUID.dashed (UUID.hex_fixed 32 (drawn_uuid (urandom_calls w))) ∧
  0 ≤ drawn_uuid (urandom_calls w) < 2 ^ 128.
Proof.
  intros Hb.
  assert (Hr : 0 ≤ drawn_uuid (urandom_calls w) < 2 ^ 128).
  { apply with_version4_128. split; [apply N2Z.is_nonneg|].
    change (2 ^ 128) with (Z.of_N (2 ^ 128)). by apply N2Z.inj_lt. }
  split; [| done].
  rewrite create_id. unfold UUID.str.
  by rewrite list_ascii_of_string_of_list_ascii, format_032x_128.
Qed.

(** X4.  When [os.urandom(16)] returns 16 bytes, the [id] of the record
    that create returns has 36 characters, with a dash at the positions 8,
    13, 18 and 23. *)
Theorem id_is_36_chars_with_dashes p w :
  (urandom (urandom_calls w) < 2 ^ 128)%N →
  String.length (Permit.id (create_permit p w).1) = 36%nat ∧
  list_ascii_of_string (Permit.id (create_permit p w).1) !! 8%nat
  = Some "-"%char ∧
  list_ascii_of_string (Permit.id (create_permit p w).1) !! 13%nat
  = Some "-"%char ∧
  list_ascii_of_string (Permit.id (create_permit p w).1) !! 18%nat
  = Some "-"%char ∧
  list_ascii_of_string (Permit.id (create_permit p w).1) !! 23%nat
  = Some "-"%char.
Proof.
  intros Hb. destruct (create_id_chars p w Hb) as [E _].
  destruct (dashed_32 (UUID.hex_fixed 32 (drawn_uuid (urandom_calls w))))
    as (Hlen & H8 & H13 & H18 & H23 & _); [apply hex_fixed_length|].
  rewrite <- (string_of_list_ascii_of_string
                (Permit.id (create_permit p w).1)) at 1.
  rewrite E, length_string_of_list_ascii. done.
Qed.

(** X5.  When [os.urandom(16)] returns 16 bytes, the [id] of the record
    that create returns shows the version digit 4 at position 14 and one
    of the variant digits 8, 9, a and b at position 19. *)
Theorem id_version_and_variant p w :
  (urandom (urandom_calls w) < 2 ^ 128)%N →
  list_ascii_of_string (Permit.id (create_permit p w).1) !! 14%nat
  = Some "4"%char ∧
  (list_ascii_of_string (Permit.id (create_permit p w).1) !! 19%nat)
    ∈ [Some "8"%char; Some "9"%char; Some "a"%char; Some "b"%char].
Proof.
  intros Hb. destruct (create_id_chars p w Hb) as [-> _].
  destruct (dashed_32 (UUID.hex_fixed 32 (drawn_uuid (urandom_calls w))))
    as (_ & _ & _ & _ & _ & -> & ->); [apply hex_fixed_length|].
  rewrite !hex_fixed_lookup by lia.
  cbn [Nat.sub Z.of_nat Pos.of_succ_nat Pos.succ].
  change (16 ^ 19) with (2 ^ 76). change (16 ^ 15) with (2 ^ 60).
  unfold drawn_uuid. rewrite version_nibble. split; [done|].
  pose proof (variant_nibble (Z.of_N (urandom (urandom_calls w)))) as Hv.
  set (d := (_ / _) mod 16) in *.
  assert (Hd : d = 8 ∨ d = 9 ∨ d = 10 ∨ d = 11) by lia.
  clearbody d. clear Hv.
  destruct Hd as [-> | [-> | [-> | ->]]]; cbn; set_solver.
Qed.

(** Two integers give the same UUID exactly when they agree on the bits
    that are not overwritten. *)
Lemma with_version4_eq_iff a b :
  UUID.with_version4 a = UUID.with_version4 b ↔
  ∀ i, 0 ≤ i → fixed_bit i = false → Z.testbit a i = Z.testbit b i.
Proof.
  split.
  - intros Heq i Hi Hfree.
    apply (f_equal (λ u, Z.testbit u i)) in Heq.
    rewrite !with_version4_testbit in Heq by done.
    unfold fixed_bit in Hfree.
    repeat match goal with
           | H : context [i =? ?c] |- _ => destruct (Z.eqb_spec i c)
           end; done.
  - intros Hbits. apply Z.bits_inj'. intros i Hi.
    rewrite !with_version4_testbit by done.
    specialize (Hbits i Hi). unfold fixed_bit in Hbits.
    repeat match goal with
           | H : context [i =? ?c] |- _ => destruct (Z.eqb_spec i c)
           end; auto.
Qed.

(** X6.  Two create calls return the same [id] exactly when their random
    draws agree on every bit but the six version and variant bits: the
    text form loses nothing of the other bits, and nothing else enters
    the [id]. *)
Theorem same_id_iff_same_free_bits p1 w1 p2 w2 :
  Permit.id (create_permit p1 w1).1 = Permit.id (create_permit p2 w2).1 ↔
  ∀ i, 0 ≤ i → fixed_bit i = false →
    Z.testbit (Z.of_N (urandom (urandom_calls w1))) i
    = Z.testbit (Z.of_N (urandom (urandom_calls w2))) i.
Proof.
  rewrite !create_id, <- with_version4_eq_iff. split.
  - intros H. apply str_inj in H; [done | apply drawn_uuid_nonneg ..].
  - intros H. unfold drawn_uuid. by rewrite H.
Qed.

Lemma hexchar_digit d : 0 ≤ d < 16 → UUID.hexchar d ∈ UUID.hexdigits.
Proof.
  intros Hd. unfold UUID.hexchar.
  apply list_elem_of_In, nth_In.
  change (length UUID.hexdigits) with 16%nat. lia.
Qed.

Lemma hex_fixed_digits k n :
  Forall (λ c, c ∈ UUID.hexdigits) (UUID.hex_fixed k n).
Proof.
  revert n. induction k as [|k IH]; intros n; [constructor|].
  cbn [UUID.hex_fixed]. apply Forall_app. split; [apply IH|].
  apply Forall_singleton, hexchar_digit, Z.mod_pos_bound. lia.
Qed.

(** X7.  The [id] of the record that create returns consists of the
    characters [0] to [9], [a] to [f] and [-] only. *)
Theorem id_charset p w :
  Forall (λ c, c ∈ UUID.hexdigits ∨ c = "-"%char)
         (list_ascii_of_string (Permit.id (create_permit p w).1)).
Proof.
  rewrite create_id. unfold UUID.str.
  rewrite list_ascii_of_string_of_list_ascii.
  assert (Hd : Forall (λ c, c ∈ UUID.hexdigits ∨ c = "-"%char)
                 (UUID.format_032x (drawn_uuid (urandom_calls w)))).
  { eapply Forall_impl; [apply hex_fixed_digits|]. by left. }
  unfold UUID.dashed, UUID.slice.
  repeat first
    [ apply Forall_app; split
    | apply Forall_cons; split; [by right|]
    | apply Forall_take
    | apply Forall_drop
    | exact Hd ].
Qed.

(** *** Ids across calls *)

(** The list calls of a sequence can be left out. *)
Lemma run_payloads cs w : run cs w = run (CallCreate <$> payloads cs) w.
Proof.
  revert w. induction cs as [|c cs IH]; intros w; [done|].
  rewrite run_cons. destruct c as [p|].
  - cbn [payloads omap list_omap]. fold (payloads cs).
    rewrite fmap_cons, run_cons. apply IH.
  - rewrite step_list. apply IH.
Qed.

(** The store of a run from startup holds the records that its create
    calls returned, in order. *)
Lemma store_is_returned cs :
  permits (run cs startup) = (creates (payloads cs) startup).1.
Proof. by rewrite run_payloads, <- creates_run, creates_store. Qed.

(** Membership and absence of repetitions pass through [str]. *)
Lemma str_elem_of u (l : list UUID.t) :
  0 ≤ u → Forall (λ v, 0 ≤ v) l →
  UUID.str u ∈ UUID.str <$> l ↔ u ∈ l.
Proof.
  intros Hu Hl. rewrite list_elem_of_fmap. split.
  - intros (v & Heq & Hv). rewrite Forall_forall in Hl.
    apply str_inj in Heq; [by subst | done | by apply Hl].
  - intros Hin. by exists u.
Qed.

Lemma str_NoDup (l : list UUID.t) :
  Forall (λ v, 0 ≤ v) l → NoDup (UUID.str <$> l) ↔ NoDup l.
Proof.
  intros Hl. split; [apply NoDup_fmap_1|].
  apply NoDup_fmap_2_strong. intros a b Ha Hb.
  rewrite Forall_forall in Hl. apply str_inj; by apply Hl.
Qed.

Lemma drawn_uuids_nonneg n : Forall (λ v, 0 ≤ v) (drawn_uuid <$> seq 0 n).
Proof. apply Forall_fmap, Forall_true. intros k. apply drawn_uuid_nonneg. Qed.

Lemma reached_NoDup_iff w :
  reached w →
  NoDup (Permit.id <$> permits w) ↔ fresh_draws urandom (urandom_calls w).
Proof.
  intros Hw. rewrite (reached_ids w Hw), <- (reached_draws _ Hw).
  apply str_NoDup, drawn_uuids_nonneg.
Qed.

(** C3, amended.  After any sequence of calls since startup, a create call
    returns a record whose [id] is not the empty string and appends it
    to the store, which holds exactly the records that the earlier create
    calls returned.  The new [id] differs from every stored [id] exactly
    when the UUID drawn for it differs from every UUID drawn before, and
    the ids in the store are pairwise different, before and after the
    call, exactly when the UUIDs drawn so far are; a list call leaves
    the store as it is. *)
Theorem ids_distinct_iff_draws_fresh cs p :
  Permit.id (create_permit p (run cs startup)).1 ≠ "" ∧
  permits (run cs startup) = (creates (payloads cs) startup).1 ∧
  permits (create_permit p (run cs startup)).2
  = permits (run cs startup) ++ [(create_permit p (run cs startup)).1] ∧
  (Permit.id (create_permit p (run cs startup)).1
     ∉ (Permit.id <$> permits (run cs startup))
   ↔ drawn_uuid (urandom_calls (run cs startup))
     ∉ (drawn_uuid <$> seq 0 (urandom_calls (run cs startup)))) ∧
  (NoDup (Permit.id <$> permits (create_permit p (run cs startup)).2)
   ↔ fresh_draws urandom
       (urandom_calls (create_permit p (run cs startup)).2)) ∧
  (NoDup (Permit.id <$> permits (run cs startup))
   ↔ fresh_draws urandom (urandom_calls (run cs startup))) ∧
  permits (list_permits (run cs startup)).2 = permits (run cs startup).
Proof.
  pose proof (reached_run cs) as Hw.
  split_and!.
  - rewrite create_id. apply str_nonempty.
  - apply store_is_returned.
  - apply create_store.
  - rewrite create_id, (reached_ids _ Hw), <- (reached_draws _ Hw).
    apply not_iff_compat, str_elem_of;
      [apply drawn_uuid_nonneg | apply drawn_uuids_nonneg].
  - change (create_permit p (run cs startup)).2
      with (step (run cs startup) (CallCreate p)).
    rewrite <- run_snoc. apply reached_NoDup_iff, reached_run.
  - by apply reached_NoDup_iff.
  - done.
Qed.

(** C5, amended.  The same payload submitted two times in a row appends
    two records, and the store holds both behind what it held before.
    Their ids are equal exactly when the two draws agree on every bit
    but the six version and variant bits, and the records are equal
    exactly when the ids are and each clock read of the second call
    returns what the matching read of the first returned. *)
Theorem create_twice_outcome p w :
  permits (create_twice p w).2
  = permits w ++ [(create_twice p w).1.1; (create_twice p w).1.2] ∧
  (Permit.id (create_twice p w).1.1 = Permit.id (create_twice p w).1.2
   ↔ ∀ i, 0 ≤ i → fixed_bit i = false →
       Z.testbit (Z.of_N (urandom (urandom_calls w))) i
       = Z.testbit (Z.of_N (urandom (S (urandom_calls w)))) i) ∧
  ((create_twice p w).1.1 = (create_twice p w).1.2
   ↔ Permit.id (create_twice p w).1.1 = Permit.id (create_twice p w).1.2 ∧
     clock (clock_reads w) = clock (S (S (clock_reads w))) ∧
     clock (S (clock_reads w)) = clock (S (S (S (clock_reads w))))).
Proof.
  rewrite create_twice_eq. cbn [fst snd]. split_and!.
  - by rewrite !create_store, <- app_assoc.
  - rewrite !create_id, create_urandom_calls, <- with_version4_eq_iff.
    split.
    + intros H. apply str_inj in H; [done | apply drawn_uuid_nonneg ..].
    + intros H. unfold drawn_uuid. by rewrite H.
  - split.
    + intros H. split_and!.
      * by rewrite H.
      * apply (f_equal Permit.submitted_at) in H. exact H.
      * apply (f_equal Permit.updated_at) in H. exact H.
    + intros (Hid & Hs & Hu). cbn in *. by rewrite Hid, Hs, Hu.
Qed.

Section More_routes.
Context {V : Validators}.

(** X9.  A field of the body other than [county_id] and [type] is
    ignored: with or without it the body validates to the same payload,
    POST leaves the same world behind, and POST gives the same answer
    unless the body is rejected either way.  In particular a client
    cannot set [id], [user_id], [status] or the timestamps. *)
Theorem unknown_fields_ignored k v fields w :
  k ≠ "county_id" → k ≠ "type" →
  PermitCreate_validate (Object (<[k := v]> fields))
  = PermitCreate_validate (Object fields) ∧
  (post_permits (Object (<[k := v]> fields)) w).2
  = (post_permits (Object fields) w).2 ∧
  ((post_permits (Object (<[k := v]> fields)) w).1
   = (post_permits (Object fields) w).1 ∨
   PermitCreate_validate (Object fields) = None).
Proof.
  intros Hc Ht.
  assert (E : PermitCreate_validate (Object (<[k := v]> fields))
              = PermitCreate_validate (Object fields)).
  { cbn [PermitCreate_validate]. by rewrite !lookup_insert_ne. }
  split; [done|]. unfold post_permits. rewrite E.
  destruct (PermitCreate_validate (Object fields)) as [permit|].
  - split; [done | by left].
  - split; [| by right].
    by destruct (error_renders _), (error_renders _).
Qed.

(** X10.  When POST answers 200 with the record [r], the GET that follows
    answers 200 with the old store followed by [r]; [r] has the constant
    fields, and its [county_id] and [type] are what the validators made
    of the fields of the same names in the body. *)
Theorem post_then_get b w r w' :
  post_permits b w = (OK_200 r, w') →
  get_permits w' = (OK_200 (permits w ++ [r]), w') ∧
  has_defaults r ∧
  ∃ fields cv tv,
    b = Object fields ∧
    fields !! "county_id" = Some cv ∧
    fields !! "type" = Some tv ∧
    validate_int cv = Some (Permit.county_id r) ∧
    validate_str tv = Some (Permit.type r).
Proof.
  unfold post_permits.
  destruct (PermitCreate_validate b) as [permit|] eqn:Hv;
    [| destruct (error_renders b); discriminate].
  intros H.
  assert (Hr : r = (create_permit permit w).1) by (by injection H).
  assert (Hw : w' = (create_permit permit w).2) by (by injection H).
  clear H. subst r w'. split_and!.
  - unfold get_permits, bind, list_permits, ret. by rewrite create_store.
  - apply create_defaults.
  - destruct b as [|fields]; [discriminate|]. cbn in Hv.
    destruct (fields !! "county_id") as [cv|] eqn:Ec; [| discriminate].
    destruct (fields !! "type") as [tv|] eqn:Et; cbn in Hv.
    + destruct (validate_int cv) as [c|] eqn:Evc; [| discriminate].
      destruct (validate_str tv) as [t|] eqn:Evt; [| discriminate].
      cbn in Hv. injection Hv as <-. by exists fields, cv, tv.
    + destruct (validate_int cv); discriminate.
Qed.

(** *** Sequences of requests *)

Lemma serve_cons q qs w :
  serve (q :: qs) w
  = ((handle q w).1 :: (serve qs (handle q w).2).1,
     (serve qs (handle q w).2).2).
Proof.
  cbn [serve]. unfold bind at 1 2.
  destruct (handle q w) as [a w1]. cbn [fst snd].
  by destruct (serve qs w1).
Qed.

Lemma serve_app qs1 qs2 w :
  serve (qs1 ++ qs2) w
  = ((serve qs1 w).1 ++ (serve qs2 (serve qs1 w).2).1,
     (serve qs2 (serve qs1 w).2).2).
Proof.
  revert w. induction qs1 as [|q qs1 IH]; intros w.
  - cbn. by destruct (serve qs2 w).
  - rewrite <- app_comm_cons, !serve_cons, IH. done.
Qed.

Lemma serve_length qs w : length (serve qs w).1 = length qs.
Proof.
  revert w. induction qs as [|q qs IH]; intros w; [done|].
  rewrite serve_cons. cbn. by rewrite IH.
Qed.

(** What POST answers to a body that fails validation. *)
Lemma post_permits_invalid b w :
  PermitCreate_validate b = None →
  post_permits b w
  = (if error_renders b then Unprocessable_422 else Internal_500, w).
Proof.
  intros H. unfold post_permits. rewrite H. by destruct (error_renders b).
Qed.


End More_routes.

End More_properties.

(** ** The further properties at sample inputs *)


(** X4 for the first create call on the counting random source. *)
Lemma id_is_36_chars_with_dashes_witness :
  (counting_urandom (urandom_calls startup) < 2 ^ 128)%N ∧
  String.length (Permit.id (sample_create roofing startup).1) = 36%nat ∧
  list_ascii_of_string (Permit.id (sample_create roofing startup).1) !! 8%nat
  = Some "-"%char ∧
  list_ascii_of_string (Permit.id (sample_create roofing startup).1) !! 13%nat
  = Some "-"%char ∧
  list_ascii_of_string (Permit.id (sample_create roofing startup).1) !! 18%nat
  = Some "-"%char ∧
  list_ascii_of_string (Permit.id (sample_create roofing startup).1) !! 23%nat
  = Some "-"%char.
Proof.
  assert (Hb : (@urandom ticking_env (urandom_calls startup) < 2 ^ 128)%N)
    by (vm_compute; reflexivity).
  split; [exact Hb|].
  exact (@id_is_36_chars_with_dashes ticking_env roofing startup Hb).
Defined.

(** X5 for the first create call on the counting random source. *)
Lemma id_version_and_variant_witness :
  (counting_urandom (urandom_calls startup) < 2 ^ 128)%N ∧
  list_ascii_of_string (Permit.id (sample_create roofing startup).1) !! 14%nat
  = Some "4"%char ∧
  (list_ascii_of_string (Permit.id (sample_create roofing startup).1)
     !! 19%nat)
    ∈ [Some "8"%char; Some "9"%char; Some "a"%char; Some "b"%char].
Proof.
  assert (Hb : (@urandom ticking_env (urandom_calls startup) < 2 ^ 128)%N)
    by (vm_compute; reflexivity).
  split; [exact Hb|].
  exact (@id_version_and_variant ticking_env roofing startup Hb).
Defined.

(** X9 for a body that tries to set [id]. *)
Lemma unknown_fields_ignored_witness :
  "id" ≠ "county_id" ∧ "id" ≠ "type" ∧
  @PermitCreate_validate strict
    (Object (<["id" := JString "mine"]> roofing_fields))
  = @PermitCreate_validate strict (Object roofing_fields) ∧
  (sample_post (Object (<["id" := JString "mine"]> roofing_fields)) startup).2
  = (sample_post (Object roofing_fields) startup).2 ∧
  ((sample_post (Object (<["id" := JString "mine"]> roofing_fields))
      startup).1
   = (sample_post (Object roofing_fields) startup).1 ∨
   @PermitCreate_validate strict (Object roofing_fields) = None).
Proof.
  assert (Hc : "id" ≠ "county_id") by discriminate.
  assert (Ht : "id" ≠ "type") by discriminate.
  split_and!; [exact Hc | exact Ht | ..];
    apply (@unknown_fields_ignored ticking_env strict
             "id" (JString "mine") roofing_fields startup Hc Ht).
Defined.

(** X10 for the scenario of the specification. *)
Lemma post_then_get_witness :
  @post_permits ticking_env strict roofing_body startup
  = (OK_200 (@record_at ticking_env 0 roofing), one_permit) ∧
  get_permits one_permit
  = (OK_200 (permits startup ++ [@record_at ticking_env 0 roofing]),
     one_permit) ∧
  has_defaults (@record_at ticking_env 0 roofing) ∧
  ∃ fields cv tv,
    roofing_body = Object fields ∧
    fields !! "county_id" = Some cv ∧
    fields !! "type" = Some tv ∧
    @validate_int strict cv
    = Some (Permit.county_id (@record_at ticking_env 0 roofing)) ∧
    @validate_str strict tv
    = Some (Permit.type (@record_at ticking_env 0 roofing)).
Proof.
  assert (Hp : sample_post roofing_body startup
               = (OK_200 (@record_at ticking_env 0 roofing), one_permit))
    by (vm_compute; reflexivity).
  split; [exact Hp|].
  exact (@post_then_get ticking_env strict roofing_body startup _ _ Hp).
Defined.


(** C3 fails as stated: on a random source whose first two draws are 0
    and 0xf000c000000000000000, two different 16-byte values, the second
    create call returns the [id] of the first, and the store holds that
    [id] two times. *)
Lemma different_draws_same_id :
  @urandom colliding_env 0%nat ≠ @urandom colliding_env 1%nat ∧
  Permit.id (@create_twice colliding_env roofing startup).1.2
  = Permit.id (@create_twice colliding_env roofing startup).1.1 ∧
  Permit.id (@create_twice colliding_env roofing startup).1.2 ≠ "" ∧
  ¬ NoDup (Permit.id <$>
           permits (@create_twice colliding_env roofing startup).2).
Proof.
  split_and!.
  - discriminate.
  - vm_compute. reflexivity.
  - discriminate.
  - apply (bool_decide_unpack _). vm_compute. exact I.
Qed.

(** C5 fails as stated: on a clock that stands still and a random source
    that repeats itself, the payload submitted two times yields the same
    record, with the same [id], two times. *)
Lemma same_payload_twice_same_record :
  (@create_twice frozen_env roofing startup).1.1
  = (@create_twice frozen_env roofing startup).1.2 ∧
  Permit.id (@create_twice frozen_env roofing startup).1.1
  = Permit.id (@create_twice frozen_env roofing startup).1.2 ∧
  permits (@create_twice frozen_env roofing startup).2
  = [(@create_twice frozen_env roofing startup).1.1;
     (@create_twice frozen_env roofing startup).1.1].
Proof. split_and!; reflexivity. Qed.

